(** * Knight attack tables: a shallow embedding of [scripts/knights.py]

    The script precomputes, for each of the 64 squares of a chess board,
    the bitboard of the squares a knight attacks from there, and prints
    the 64 bitboards as hexadecimal literals.

    Python integers are unbounded, so they are embedded as [Z].  A Python
    list is a [list]; the indexed store [pattern[idx] = 1] is embedded
    with its bounds check (an index outside the list raises [IndexError],
    a negative one counts from the end), and a raised exception is [None]
    in the [option] monad. *)

From Stdlib Require Import ZArith Lia Ascii.
From stdpp Require Import base option list list_numbers numbers strings.

Local Open Scope Z_scope.

(** ** Python primitives used by the script *)

Module Py.

(** [range(n)]. *)
Definition range (n : Z) : list Z := seqZ 0 n.

(** [itertools.product(xs, ys)]: the pairs in lexicographic order, the
    rightmost component advancing fastest. *)
Definition product {A B} (xs : list A) (ys : list B) : list (A * B) :=
  x ← xs; y ← ys; [(x, y)].

(** [[v] * n]. *)
Definition repeat_list {A} (v : A) (n : nat) : list A := replicate n v.

(** [l[idx] = v].  The list is not extended: an index outside
    [-len(l) .. len(l)-1] raises [IndexError]. *)
Definition setitem {A} (l : list A) (idx : Z) (v : A) : option (list A) :=
  if bool_decide (0 ≤ idx < Z.of_nat (length l)) then
    Some (<[Z.to_nat idx := v]> l)
  else if bool_decide (- Z.of_nat (length l) ≤ idx < 0) then
    Some (<[Z.to_nat (Z.of_nat (length l) + idx) := v]> l)
  else None.

(** [enumerate(l)]. *)
Definition enumerate {A} (l : list A) : list (Z * A) :=
  imap (λ i v, (Z.of_nat i, v)) l.

(** [sum(l)]: left to right, starting from [0]. *)
Definition sum (l : list Z) : Z := foldl Z.add 0 l.

(** A [for] loop whose body updates a state and may raise. *)
Fixpoint for_each {A S} (xs : list A) (body : A → S → option S) (s : S)
    : option S :=
  match xs with
  | [] => Some s
  | x :: xs' => s' ← body x s; for_each xs' body s'
  end.

(** The digit characters of [hex], in the order of their values. *)
Definition hex_alphabet : string := "0123456789abcdef".

(** The character of the digit [d], for [0 <= d < 16]. *)
Definition hex_digit (d : Z) : ascii :=
  default "f"%char (String.get (Z.to_nat d) hex_alphabet).

(** The digits of a non-negative [n] in base 16, most significant first,
    in front of [acc]; at least one digit.  [fuel] bounds the number of
    digits. *)
Fixpoint hex_digits (fuel : nat) (n : Z) (acc : string) : string :=
  match fuel with
  | O => acc
  | S fuel' =>
      let acc' := String (hex_digit (n `mod` 16)) acc in
      if n `div` 16 =? 0 then acc' else hex_digits fuel' (n `div` 16) acc'
  end.

(** A number of hexadecimal digits that suffices for [n]. *)
Definition hex_fuel (n : Z) : nat := S (Z.to_nat (Z.log2 n)).

(** [hex(n)]: lowercase, [0x] prefix, no padding, sign in front. *)
Definition hex (n : Z) : string :=
  if n <? 0 then "-0x" +:+ hex_digits (hex_fuel (- n)) (- n) ""
  else "0x" +:+ hex_digits (hex_fuel n) n "".

(** [sep.join(l)]. *)
Fixpoint join (sep : string) (l : list string) : string :=
  match l with
  | [] => ""
  | [s] => s
  | s :: l' => s +:+ sep +:+ join sep l'
  end.

End Py.

(** ** The script *)

(** [is_valid_square(y, x)] *)
Definition is_valid_square (y x : Z) : bool :=
  (y >=? 0) && (y <? 8) && (x >=? 0) && (x <? 8).

(** The integer that [list_to_hex] hands to [hex]:
    [sum(map(lambda t: t[1]*(2**t[0]), enumerate(li)))]. *)
Definition list_to_int (li : list Z) : Z :=
  Py.sum (map (λ t : Z * Z, t.2 * 2 ^ t.1) (Py.enumerate li)).

(** [list_to_hex(li)] *)
Definition list_to_hex (li : list Z) : string := Py.hex (list_to_int li).

(** The body shared by the two offset loops of [generate_patterns]:
    [if is_valid_square(y + dy, x + dx): pattern[(y+dy)*8 + (x+dx)] = 1]. *)
Definition mark (y x : Z) (d : Z * Z) (pattern : list Z)
    : option (list Z) :=
  let '(dy, dx) := d in
  if is_valid_square (y + dy) (x + dx) then
    let idx := (y + dy) * 8 + (x + dx) in
    Py.setitem pattern idx 1
  else Some pattern.

(** The body of the [x] loop up to [patterns.append]: the list [pattern]
    that is built for the square [(y, x)]. *)
Definition square_pattern (y x : Z) : option (list Z) :=
  let pattern := Py.repeat_list 0 64 in
  pattern ← Py.for_each (Py.product [-2; 2] [-1; 1]) (mark y x) pattern;
  Py.for_each (Py.product [-1; 1] [-2; 2]) (mark y x) pattern.

(** The two nested loops of [generate_patterns]: the value of the local
    variable [patterns] when they are done. *)
Definition collect_patterns : option (list (list Z)) :=
  Py.for_each (Py.range 8) (λ y patterns,
    Py.for_each (Py.range 8) (λ x patterns,
      pattern ← square_pattern y x;
      Some (patterns ++ [pattern])) patterns) [].

(** [generate_patterns()] *)
Definition generate_patterns : option (list string) :=
  patterns ← collect_patterns;
  Some (map list_to_hex patterns).

(** The script run as [__main__]: what [print] writes to standard
    output. *)
Definition printed_line : option string :=
  Py.join ", " <$> generate_patterns.

Definition main : option string :=
  line ← printed_line; Some (line +:+ String "010" "").

(** ** Reading the table

    The vocabulary in which the properties of the table are stated: the
    knight's geometry, bit counts, and the reader of the printed line
    (which splits it at the separator and parses hexadecimal
    literals). *)

(** The eight offsets [(dy, dx)] of a knight's move. *)
Definition knight_offsets : list (Z * Z) :=
  [(-2, -1); (-2, 1); (2, -1); (2, 1); (-1, -2); (-1, 2); (1, -2); (1, 2)].

(** Square [i] is the target, on the board, of one of the offsets [ds]
    applied to the square [(y, x)]. *)
Definition hits (y x : Z) (ds : list (Z * Z)) (i : Z) : bool :=
  existsb (λ d : Z * Z,
    is_valid_square (y + d.1) (x + d.2) && (i =? (y + d.1) * 8 + (x + d.2)))
    ds.

(** What [pattern] holds when the offsets [ds] have been tried from the
    square [(y, x)]: 64 entries, a [1] at the squares hit and a [0]
    elsewhere. *)
Definition marked (y x : Z) (ds : list (Z * Z)) (pattern : list Z) : Prop :=
  length pattern = 64%nat ∧
  ∀ j : nat, (j < 64)%nat →
    pattern !! j = Some (Z.b2z (hits y x ds (Z.of_nat j))).

(** A list of binary digits, least significant first, as a number. *)
Definition bits_value (li : list Z) : Z :=
  foldr (λ b acc, b + 2 * acc) 0 li.

(** A bit list holds only [0] and [1]. *)
Definition is_bits (li : list Z) : Prop := Forall (λ b, b = 0 ∨ b = 1) li.

(** The number of set bits of a non-negative integer. *)
Fixpoint popcount_pos (p : positive) : Z :=
  match p with
  | xH => 1
  | xO p' => popcount_pos p'
  | xI p' => 1 + popcount_pos p'
  end.

Definition popcount (n : Z) : Z :=
  match n with
  | Zpos p => popcount_pos p
  | _ => 0
  end.

(** The mask at index [i] of the table: the integer whose literal
    [generate_patterns] stores there. *)
Definition mask_at (i : nat) : option Z :=
  patterns ← collect_patterns;
  pattern ← patterns !! i;
  Some (list_to_int pattern).

Module Reader.

(** The value of a lowercase hexadecimal digit: its position among
    [0123456789abcdef]. *)
Definition digit_value (c : ascii) : option Z :=
  Z.of_nat <$> String.index 0 (String c "") Py.hex_alphabet.

(** [s] consists of lowercase hexadecimal digits only: [[0-9a-f]*]. *)
Fixpoint all_hex_digits (s : string) : bool :=
  match s with
  | "" => true
  | String c s' => bool_decide (is_Some (digit_value c)) && all_hex_digits s'
  end.

(** [s] matches [0x[0-9a-f]+] as a whole. *)
Definition is_hex_literal (s : string) : bool :=
  match s with
  | String "0" (String "x" (String c s')) => all_hex_digits (String c s')
  | _ => false
  end.

(** The digits [s] read in base 16 after the digits already read as
    [acc]. *)
Fixpoint parse_digits (acc : Z) (s : string) : option Z :=
  match s with
  | "" => Some acc
  | String c s' => d ← digit_value c; parse_digits (16 * acc + d) s'
  end.

(** The value of a literal [0x] followed by at least one digit. *)
Definition parse_hex (s : string) : option Z :=
  match s with
  | String "0" (String "x" (String c s')) => parse_digits 0 (String c s')
  | _ => None
  end.

(** [c] in front of the first piece. *)
Definition push (c : ascii) (pieces : list string) : list string :=
  match pieces with
  | [] => [String c ""]
  | t :: ts => String c t :: ts
  end.

(** The characters of [t] in front of the first piece. *)
Definition prepend (t : string) (pieces : list string) : list string :=
  match pieces with
  | [] => [t]
  | p :: ps => (t +:+ p) :: ps
  end.

(** The pieces of [s] between the occurrences of [sep], found from left
    to right, once the next [skip] characters (the rest of an occurrence
    just found) are dropped. *)
Fixpoint split_from (sep : string) (skip : nat) (s : string) : list string :=
  match s with
  | "" => [""]
  | String c s' =>
      match skip with
      | S skip' => split_from sep skip' s'
      | O =>
          if String.prefix sep s then
            "" :: split_from sep (String.length sep - 1) s'
          else push c (split_from sep 0 s')
      end
  end.

(** [s.split(sep)] for a separator that is not empty. *)
Definition split (sep s : string) : list string := split_from sep 0 s.

End Reader.

(** Case analysis on a membership [H] in [knight_offsets]: one goal per
    offset, with the offset substituted. *)
Ltac knight_cases H :=
  unfold knight_offsets in H; rewrite !elem_of_cons, elem_of_nil in H;
  repeat destruct H as [H | H];
  first [ exfalso; exact H | injection H as -> -> ].

(** ** The primitives on concrete inputs *)

Example hex_examples :
  Py.hex 0 = "0x0" ∧ Py.hex 255 = "0xff" ∧ Py.hex 4096 = "0x1000"
  ∧ Py.hex (-256) = "-0x100".
Proof. repeat split; reflexivity. Qed.

Example product_examples :
  Py.product [-2; 2] [-1; 1] = [(-2, -1); (-2, 1); (2, -1); (2, 1)]
  ∧ Py.product [-1; 1] [-2; 2] = [(-1, -2); (-1, 2); (1, -2); (1, 2)].
Proof. split; reflexivity. Qed.

Example setitem_examples :
  Py.setitem [0; 0; 0] 1 1 = Some [0; 1; 0]
  ∧ Py.setitem [0; 0; 0] (-1) 1 = Some [0; 0; 1]
  ∧ Py.setitem [0; 0; 0] 3 1 = None
  ∧ Py.setitem [0; 0; 0] (-4) 1 = None.
Proof. repeat split; reflexivity. Qed.

Example list_to_hex_example : list_to_hex [1; 0; 1; 1] = "0xd".
Proof. reflexivity. Qed.

Example split_examples :
  Reader.split ", " "a, b,, c, " = ["a"; "b,"; "c"; ""]
  ∧ Reader.split ", " "" = [""]
  ∧ Reader.split ",," ",,,a,,,," = [""; ",a"; ""; ""].
Proof. repeat split; reflexivity. Qed.

Example parse_hex_examples :
  Reader.parse_hex "0x20400" = Some 132096
  ∧ Reader.parse_hex "0x" = None
  ∧ Reader.parse_hex "0xA" = None
  ∧ Reader.is_hex_literal "0x0123456789abcdef" = true
  ∧ Reader.is_hex_literal "0x" = false.
Proof. repeat split; reflexivity. Qed.

(** ** The squares of the board *)

Lemma is_valid_square_spec (y x : Z) :
  is_valid_square y x = true ↔ 0 ≤ y < 8 ∧ 0 ≤ x < 8.
Proof. unfold is_valid_square. rewrite !andb_true_iff. lia. Qed.

Lemma valid_square_index (y x : Z) :
  is_valid_square y x = true → 0 ≤ y * 8 + x < 64.
Proof. rewrite is_valid_square_spec. lia. Qed.

(** ** Bit lists as integers *)

Section BitLists.

Implicit Types (li : list Z) (b : Z).

Lemma foldl_add_shift (a : Z) (l : list Z) :
  foldl Z.add a l = a + foldl Z.add 0 l.
Proof.
  revert a. induction l as [|v l IH]; intros a; simpl; [lia|].
  rewrite (IH (a + v)), (IH (0 + v)). lia.
Qed.

Lemma sum_cons (v : Z) (l : list Z) : Py.sum (v :: l) = v + Py.sum l.
Proof. unfold Py.sum. simpl. apply foldl_add_shift. Qed.

(** The weighted sum of [list_to_hex], taken from weight [2^k] on. *)
Lemma weighted_sum_from (k : nat) li :
  Py.sum (map (λ t : Z * Z, t.2 * 2 ^ t.1)
            (imap (λ i v, (Z.of_nat (k + i)%nat, v)) li))
  = 2 ^ Z.of_nat k * bits_value li.
Proof.
  revert k. induction li as [|b li IH]; intros k; simpl.
  { unfold Py.sum. simpl. lia. }
  rewrite sum_cons. simpl.
  rewrite (imap_ext _ (λ i v, (Z.of_nat (S k + i)%nat, v))).
  2:{ intros i v _. simpl. do 2 f_equal. lia. }
  rewrite IH, Nat.add_0_r, Nat2Z.inj_succ, Z.pow_succ_r by lia. lia.
Qed.

Lemma sum_foldr (l : list Z) : Py.sum l = foldr Z.add 0 l.
Proof.
  induction l as [|v l IH]; [done|]. by rewrite sum_cons, IH.
Qed.

Lemma map_imap {A B C} (g : B → C) (f : nat → A → B) (l : list A) :
  map g (imap f l) = imap (λ i v, g (f i v)) l.
Proof.
  revert f. induction l as [|v l IH]; intros f; [done|].
  simpl. by rewrite IH.
Qed.

(** The integer of a list is the sum of its entries, the entry at
    position [i] weighted by [2^i]. *)
Lemma list_to_int_weights li :
  list_to_int li = foldr Z.add 0 (imap (λ i b, b * 2 ^ Z.of_nat i) li).
Proof.
  unfold list_to_int, Py.enumerate. by rewrite sum_foldr, map_imap.
Qed.

Lemma list_to_int_bits_value li : list_to_int li = bits_value li.
Proof.
  unfold list_to_int, Py.enumerate.
  pose proof (weighted_sum_from 0 li) as H. simpl in H. rewrite H. lia.
Qed.

Lemma bits_value_bounds li :
  is_bits li → 0 ≤ bits_value li < 2 ^ Z.of_nat (length li).
Proof.
  induction 1 as [|b li Hb _ IH]; simpl; [lia|].
  rewrite Nat2Z.inj_succ, Z.pow_succ_r by lia. lia.
Qed.

Lemma bits_value_testbit li (n : nat) :
  is_bits li →
  Z.testbit (bits_value li) (Z.of_nat n) = bool_decide (li !! n = Some 1).
Proof.
  intros Hli. revert n.
  induction Hli as [|b li Hb _ IH]; intros n.
  { change (bits_value []) with 0. rewrite Z.testbit_0_l.
    symmetry. apply bool_decide_eq_false_2. by rewrite lookup_nil. }
  change (bits_value (b :: li)) with (b + 2 * bits_value li).
  assert (Hform : b + 2 * bits_value li
                  = 2 * bits_value li + Z.b2z (bool_decide (b = 1))).
  { destruct Hb as [-> | ->]; simpl; lia. }
  rewrite Hform. destruct n as [|n].
  - change (Z.of_nat 0) with 0. rewrite Z.testbit_0_r.
    apply bool_decide_ext. simpl. split; [congruence|]. by intros [= ->].
  - rewrite Nat2Z.inj_succ, Z.testbit_succ_r by lia. apply IH.
Qed.

Lemma list_to_int_bounds li :
  is_bits li → 0 ≤ list_to_int li < 2 ^ Z.of_nat (length li).
Proof. rewrite list_to_int_bits_value. apply bits_value_bounds. Qed.

Lemma list_to_int_testbit li (i : Z) :
  is_bits li →
  Z.testbit (list_to_int li) i
  = bool_decide (0 ≤ i ∧ li !! Z.to_nat i = Some 1).
Proof.
  intros Hli. destruct (decide (0 ≤ i)) as [Hi | Hi].
  - rewrite <- (Z2Nat.id i) at 1 by done.
    rewrite list_to_int_bits_value, bits_value_testbit by done.
    apply bool_decide_ext. tauto.
  - rewrite Z.testbit_neg_r by lia.
    symmetry. apply bool_decide_eq_false_2. tauto.
Qed.

End BitLists.

(** ** Loops *)

Section Loops.

Context {A S : Type}.
Implicit Types (xs : list A) (body : A → S → option S).

(** Loop invariant rule: [Inv done s] relates the state to the
    elements already iterated over.  A body that keeps the invariant
    never raises, so neither does the loop. *)
Lemma for_each_invariant (Inv : list A → S → Prop) body xs s0 :
  Inv [] s0 →
  (∀ done x s, Inv done s → x ∈ xs →
     ∃ s', body x s = Some s' ∧ Inv (done ++ [x]) s') →
  ∃ s', Py.for_each xs body s0 = Some s' ∧ Inv xs s'.
Proof.
  intros H0 Hstep.
  cut (∀ todo done s, Inv done s → Forall (λ x, x ∈ xs) todo →
         ∃ s', Py.for_each todo body s = Some s' ∧ Inv (done ++ todo) s').
  { intros Hgen. apply (Hgen xs [] s0 H0). by apply Forall_forall. }
  induction todo as [|x todo IH]; intros done s Hs Hsub; simpl.
  - exists s. by rewrite app_nil_r.
  - apply Forall_cons in Hsub as [Hx Hsub].
    destruct (Hstep done x s Hs Hx) as (s' & -> & Hs'). simpl.
    destruct (IH (done ++ [x]) s' Hs' Hsub) as (s'' & -> & Hs'').
    exists s''. by rewrite <- app_assoc in Hs''.
Qed.

End Loops.

(** ** One square *)

Section OneSquare.

Implicit Types (y x : Z) (ds : list (Z * Z)) (pattern : list Z).

Lemma hits_snoc y x ds (d : Z * Z) (i : Z) :
  hits y x (ds ++ [d]) i
  = hits y x ds i
    || (is_valid_square (y + d.1) (x + d.2)
        && (i =? (y + d.1) * 8 + (x + d.2))).
Proof. unfold hits. rewrite existsb_app. simpl. by rewrite orb_false_r. Qed.

Lemma hits_spec y x ds (i : Z) :
  hits y x ds i = true ↔
  ∃ dy dx, (dy, dx) ∈ ds ∧ 0 ≤ y + dy < 8 ∧ 0 ≤ x + dx < 8
           ∧ i = (y + dy) * 8 + (x + dx).
Proof.
  unfold hits. rewrite existsb_exists. split.
  - intros ([dy dx] & Hin & Hd). simpl in Hd.
    apply andb_true_iff in Hd as [Hv Hi].
    apply is_valid_square_spec in Hv. apply Z.eqb_eq in Hi.
    exists dy, dx. rewrite list_elem_of_In. tauto.
  - intros (dy & dx & Hin & Hy & Hx & ->).
    exists (dy, dx). rewrite <- list_elem_of_In. split; [done|]. simpl.
    apply andb_true_iff. split; [by apply is_valid_square_spec|].
    by apply Z.eqb_eq.
Qed.

Lemma hits_range y x ds (i : Z) : hits y x ds i = true → 0 ≤ i < 64.
Proof. rewrite hits_spec. intros (dy & dx & _ & ? & ? & ->). lia. Qed.

(** An index inside the list is stored to, and nothing is raised. *)
Lemma setitem_in_range pattern (idx v : Z) :
  0 ≤ idx < Z.of_nat (length pattern) →
  Py.setitem pattern idx v = Some (<[Z.to_nat idx := v]> pattern).
Proof. intros H. unfold Py.setitem. by rewrite bool_decide_eq_true_2. Qed.

Lemma marked_initial y x : marked y x [] (Py.repeat_list 0 64).
Proof.
  split; [apply length_replicate|]. intros j Hj.
  unfold Py.repeat_list. by rewrite lookup_replicate_2.
Qed.

Lemma mark_marked y x ds (d : Z * Z) pattern :
  marked y x ds pattern →
  ∃ pattern', mark y x d pattern = Some pattern'
              ∧ marked y x (ds ++ [d]) pattern'.
Proof.
  intros [Hlen Hbits]. destruct d as [dy dx]. unfold mark.
  destruct (is_valid_square (y + dy) (x + dx)) eqn:Hv.
  - pose proof (valid_square_index _ _ Hv) as Hidx.
    rewrite setitem_in_range by lia. eexists. split; [done|].
    split; [by rewrite length_insert|]. intros j Hj.
    rewrite hits_snoc. simpl. rewrite Hv. simpl.
    destruct (decide (j = Z.to_nat ((y + dy) * 8 + (x + dx)))) as [-> | Hne].
    + rewrite list_lookup_insert_eq by lia.
      rewrite Z2Nat.id, Z.eqb_refl, orb_true_r by lia. done.
    + rewrite list_lookup_insert_ne by done.
      rewrite (proj2 (Z.eqb_neq _ _)), orb_false_r by lia. by apply Hbits.
  - eexists. split; [done|]. split; [done|]. intros j Hj.
    rewrite hits_snoc. simpl. rewrite Hv. simpl. rewrite orb_false_r.
    by apply Hbits.
Qed.

Lemma marked_is_bits y x ds pattern : marked y x ds pattern → is_bits pattern.
Proof.
  intros [Hlen Hbits]. apply Forall_lookup. intros j b Hj.
  pose proof (lookup_lt_Some _ _ _ Hj) as Hlt. rewrite Hlen in Hlt.
  rewrite (Hbits j Hlt) in Hj. injection Hj as <-.
  destruct (hits _ _ _ _); simpl; auto.
Qed.

(** The pattern of a square is built without raising and marks the
    targets of the eight knight offsets, and nothing else.  This holds
    for every source square, also one off the board. *)
Lemma square_pattern_marked y x :
  ∃ pattern, square_pattern y x = Some pattern
             ∧ marked y x knight_offsets pattern.
Proof.
  unfold square_pattern.
  destruct (for_each_invariant (marked y x) (mark y x)
              (Py.product [-2; 2] [-1; 1]) (Py.repeat_list 0 64))
    as (p1 & -> & Hp1).
  { apply marked_initial. }
  { intros done d p Hp _. by apply mark_marked. }
  change (∃ pattern, Py.for_each (Py.product [-1; 1] [-2; 2]) (mark y x) p1
                     = Some pattern ∧ marked y x knight_offsets pattern).
  destruct (for_each_invariant
              (λ done, marked y x (Py.product [-2; 2] [-1; 1] ++ done))
              (mark y x) (Py.product [-1; 1] [-2; 2]) p1)
    as (p2 & -> & Hp2).
  { by rewrite app_nil_r. }
  { intros done d p Hp _. rewrite app_assoc. by apply mark_marked. }
  by exists p2.
Qed.

(** Bit [i] of the integer of a marked pattern. *)
Lemma marked_testbit y x ds pattern (i : Z) :
  marked y x ds pattern →
  Z.testbit (list_to_int pattern) i = hits y x ds i.
Proof.
  intros Hm. rewrite list_to_int_testbit by eauto using marked_is_bits.
  destruct Hm as [Hlen Hbits].
  destruct (decide (0 ≤ i < 64)) as [Hi | Hi].
  - rewrite (Hbits (Z.to_nat i)), Z2Nat.id by lia.
    destruct (hits y x ds i); simpl.
    + apply bool_decide_eq_true_2. split; [lia | done].
    + apply bool_decide_eq_false_2. intros [_ [=]].
  - transitivity false.
    + apply bool_decide_eq_false_2. intros [Hi0 Hl].
      apply lookup_lt_Some in Hl. lia.
    + symmetry. apply not_true_is_false. intros Hh%hits_range. lia.
Qed.

End OneSquare.

(** ** The whole board *)

Section Board.

Implicit Types (y x : Z) (patterns : list (list Z)).

Lemma product_singleton_l {A B} (a : A) (bs : list B) :
  Py.product [a] bs = map (pair a) bs.
Proof.
  unfold Py.product. rewrite bind_singleton.
  induction bs as [|b bs IH]; [done|].
  rewrite bind_cons, IH. done.
Qed.

Lemma product_snoc {A B} (xs : list A) (a : A) (bs : list B) :
  Py.product (xs ++ [a]) bs = Py.product xs bs ++ map (pair a) bs.
Proof.
  rewrite <- product_singleton_l. unfold Py.product. apply bind_app.
Qed.

(** The inner loop appends one pattern per file [x], in the order of
    the files. *)
Lemma collect_row y (xs : list Z) patterns :
  ∃ row,
    Py.for_each xs (λ x patterns,
      pattern ← square_pattern y x; Some (patterns ++ [pattern])) patterns
    = Some (patterns ++ row)
    ∧ Forall2 (λ x pattern, square_pattern y x = Some pattern) xs row.
Proof.
  destruct (for_each_invariant
    (λ done ps, ∃ row, ps = patterns ++ row
       ∧ Forall2 (λ x pattern, square_pattern y x = Some pattern) done row)
    (λ x patterns,
      pattern ← square_pattern y x; Some (patterns ++ [pattern]))
    xs patterns) as (ps & Hrun & row & -> & Hrow).
  - exists []. by rewrite app_nil_r.
  - intros done x ps (row & -> & Hrow) _.
    destruct (square_pattern_marked y x) as (p & Hp & _).
    rewrite Hp. eexists. split; [done|].
    exists (row ++ [p]). rewrite app_assoc. split; [done|].
    apply Forall2_app; [done|]. by constructor.
  - by exists row.
Qed.

(** The loops complete, and [patterns] lists the patterns of the
    squares in the order rank by rank, file by file. *)
Lemma collect_patterns_order :
  ∃ patterns,
    collect_patterns = Some patterns
    ∧ Forall2 (λ (s : Z * Z) pattern, square_pattern s.1 s.2 = Some pattern)
        (Py.product (Py.range 8) (Py.range 8)) patterns.
Proof.
  unfold collect_patterns.
  apply (for_each_invariant (λ done patterns,
    Forall2 (λ (s : Z * Z) pattern, square_pattern s.1 s.2 = Some pattern)
      (Py.product done (Py.range 8)) patterns)).
  - constructor.
  - intros done y patterns Hdone _.
    destruct (collect_row y (Py.range 8) patterns) as (row & -> & Hrow).
    eexists. split; [done|]. rewrite product_snoc.
    apply Forall2_app; [done|]. by apply Forall2_fmap_l.
Qed.

(** Position [y * 8 + x] of the iteration order is the square
    [(y, x)]. *)
Lemma board_order_lookup y x :
  0 ≤ y < 8 → 0 ≤ x < 8 →
  Py.product (Py.range 8) (Py.range 8) !! Z.to_nat (y * 8 + x)
  = Some (y, x).
Proof.
  intros Hy Hx.
  assert (Hall : Forall (λ y, Forall (λ x,
            Py.product (Py.range 8) (Py.range 8) !! Z.to_nat (y * 8 + x)
            = Some (y, x)) (seqZ 0 8)) (seqZ 0 8)) by compute_done.
  rewrite Forall_forall in Hall.
  specialize (Hall y). rewrite Forall_forall in Hall.
  apply Hall; apply elem_of_seqZ; lia.
Qed.

Lemma collect_patterns_length patterns :
  collect_patterns = Some patterns → length patterns = 64%nat.
Proof.
  destruct collect_patterns_order as (ps & -> & Hps). intros [= <-].
  by rewrite <- (Forall2_length _ _ _ Hps).
Qed.

(** Row-major order of the patterns. *)
Lemma collect_patterns_lookup y x patterns :
  0 ≤ y < 8 → 0 ≤ x < 8 →
  collect_patterns = Some patterns →
  ∃ pattern, patterns !! Z.to_nat (y * 8 + x) = Some pattern
             ∧ square_pattern y x = Some pattern.
Proof.
  intros Hy Hx. destruct collect_patterns_order as (ps & -> & Hps).
  intros [= <-].
  destruct (Forall2_lookup_l _ _ _ _ _ Hps (board_order_lookup y x Hy Hx))
    as (p & Hp & Hsq).
  by exists p.
Qed.

(** Every index of the table is the square of a rank and a file. *)
Lemma square_of_index (i : nat) :
  (i < 64)%nat →
  ∃ y x, 0 ≤ y < 8 ∧ 0 ≤ x < 8 ∧ i = Z.to_nat (y * 8 + x)
         ∧ Z.of_nat i = y * 8 + x.
Proof.
  intros Hi. exists (Z.of_nat i `div` 8), (Z.of_nat i `mod` 8).
  pose proof (Z.div_mod (Z.of_nat i) 8). 
  pose proof (Z.mod_pos_bound (Z.of_nat i) 8). lia.
Qed.

(** The mask of a square: it is there, and its bits are the squares
    the knight offsets hit. *)
Lemma mask_at_square y x :
  0 ≤ y < 8 → 0 ≤ x < 8 →
  ∃ pattern m,
    square_pattern y x = Some pattern ∧ m = list_to_int pattern
    ∧ mask_at (Z.to_nat (y * 8 + x)) = Some m
    ∧ ∀ i, Z.testbit m i = hits y x knight_offsets i.
Proof.
  intros Hy Hx. destruct collect_patterns_order as (ps & Hps & _).
  destruct (collect_patterns_lookup y x ps Hy Hx Hps) as (p & Hp & Hsq).
  exists p, (list_to_int p). split; [done|]. split; [done|]. split.
  - unfold mask_at. rewrite Hps. simpl. by rewrite Hp.
  - intros i. destruct (square_pattern_marked y x) as (p' & Hp' & Hm).
    assert (p' = p) as -> by congruence.
    by apply marked_testbit.
Qed.

End Board.

(** ** Hexadecimal literals *)

Section Hex.

Import Reader.

Lemma hex_digit_value (d : Z) :
  0 ≤ d < 16 → digit_value (Py.hex_digit d) = Some d.
Proof.
  intros Hd.
  assert (Hall : Forall (λ d, digit_value (Py.hex_digit d) = Some d)
                   (seqZ 0 16)) by compute_done.
  rewrite Forall_forall in Hall. apply Hall, elem_of_seqZ. lia.
Qed.

(** Reading back the digits written for [n]. *)
Lemma parse_hex_digits (fuel : nat) (n : Z) (acc : string) :
  0 ≤ n < 16 ^ Z.of_nat fuel →
  parse_digits 0 (Py.hex_digits fuel n acc) = parse_digits n acc.
Proof.
  revert n acc. induction fuel as [|fuel IH]; intros n acc Hn.
  { simpl in *. by replace n with 0 by lia. }
  rewrite Nat2Z.inj_succ, Z.pow_succ_r in Hn by lia.
  pose proof (Z.div_mod n 16) as Hdm.
  pose proof (Z.mod_pos_bound n 16) as Hmod.
  assert (Hdiv : 0 ≤ n `div` 16 < 16 ^ Z.of_nat fuel).
  { split; [apply Z.div_pos; lia | apply Z.div_lt_upper_bound; lia]. }
  simpl. destruct (Z.eqb_spec (n `div` 16) 0) as [H0 | H0].
  - simpl. rewrite hex_digit_value by lia. simpl. f_equal. lia.
  - rewrite IH by done. simpl. rewrite hex_digit_value by lia. simpl.
    f_equal. lia.
Qed.

Lemma hex_digits_all_hex (fuel : nat) (n : Z) (acc : string) :
  all_hex_digits acc = true →
  all_hex_digits (Py.hex_digits fuel n acc) = true.
Proof.
  revert n acc. induction fuel as [|fuel IH]; intros n acc Hacc; [done|].
  assert (Hstep : all_hex_digits
                    (String (Py.hex_digit (n `mod` 16)) acc) = true).
  { simpl. rewrite Hacc, andb_true_r. apply bool_decide_eq_true_2.
    rewrite hex_digit_value; [done|]. apply Z.mod_pos_bound. lia. }
  simpl. destruct (n `div` 16 =? 0); [done|]. by apply IH.
Qed.

Lemma hex_digits_nonempty (fuel : nat) (n : Z) (acc : string) :
  ∃ c s, Py.hex_digits (S fuel) n acc = String c s.
Proof.
  revert n acc. induction fuel as [|fuel IH]; intros n acc.
  - simpl. destruct (n `div` 16 =? 0); eauto.
  - change (Py.hex_digits (S (S fuel)) n acc)
      with (let acc' := String (Py.hex_digit (n `mod` 16)) acc in
            if n `div` 16 =? 0 then acc'
            else Py.hex_digits (S fuel) (n `div` 16) acc').
    simpl. destruct (n `div` 16 =? 0); eauto.
Qed.

(** The fuel of [hex] is enough for all the digits. *)
Lemma hex_fuel_enough (n : Z) :
  0 ≤ n → n < 16 ^ Z.of_nat (Py.hex_fuel n).
Proof.
  intros Hn. unfold Py.hex_fuel.
  rewrite Nat2Z.inj_succ, Z2Nat.id by apply Z.log2_nonneg.
  apply Z.lt_le_trans with (2 ^ Z.succ (Z.log2 n)).
  - destruct (decide (n = 0)) as [-> | Hne]; [done|].
    apply Z.log2_spec. lia.
  - apply Z.pow_le_mono_l. pose proof (Z.log2_nonneg n). lia.
Qed.

(** The literal of a non-negative integer: [0x] and its digits. *)
Lemma hex_nonneg (n : Z) :
  0 ≤ n →
  ∃ c s, Py.hex n = String "0" (String "x" (String c s))
         ∧ all_hex_digits (String c s) = true
         ∧ parse_digits 0 (String c s) = Some n.
Proof.
  intros Hn. unfold Py.hex. rewrite (proj2 (Z.ltb_ge n 0)) by done.
  pose proof (hex_digits_all_hex (Py.hex_fuel n) n "" eq_refl) as Hall.
  pose proof (parse_hex_digits (Py.hex_fuel n) n "" (conj Hn
                (hex_fuel_enough n Hn))) as Hparse.
  destruct (hex_digits_nonempty (Z.to_nat (Z.log2 n)) n "")
    as (c & s & Hcs).
  fold (Py.hex_fuel n) in Hcs. rewrite Hcs in *. by exists c, s.
Qed.

(** Formatting and reading back is the identity, and what is
    formatted matches [0x[0-9a-f]+]. *)
Lemma hex_roundtrip (n : Z) :
  0 ≤ n →
  is_hex_literal (Py.hex n) = true ∧ parse_hex (Py.hex n) = Some n.
Proof.
  intros Hn. destruct (hex_nonneg n Hn) as (c & s & -> & Hall & Hparse).
  done.
Qed.

Lemma hex_digit_nonzero (d : Z) :
  0 < d < 16 → Py.hex_digit d ≠ "0"%char.
Proof.
  intros Hd.
  assert (Hall : Forall (λ d, Py.hex_digit d ≠ "0"%char) (seqZ 1 15))
    by (apply (bool_decide_unpack _); vm_compute; exact I).
  rewrite Forall_forall in Hall. apply Hall, elem_of_seqZ. lia.
Qed.

(** The digits written for a positive [n] start with a digit that is
    not zero. *)
Lemma hex_digits_leading (fuel : nat) (n : Z) (acc : string) :
  0 < n < 16 ^ Z.of_nat fuel →
  ∃ c s, Py.hex_digits fuel n acc = String c s ∧ c ≠ "0"%char.
Proof.
  revert n acc. induction fuel as [|fuel IH]; intros n acc Hn.
  { simpl in Hn. lia. }
  rewrite Nat2Z.inj_succ, Z.pow_succ_r in Hn by lia.
  pose proof (Z.div_mod n 16) as Hdm.
  pose proof (Z.mod_pos_bound n 16) as Hmod.
  assert (Hdiv : 0 ≤ n `div` 16 < 16 ^ Z.of_nat fuel).
  { split; [apply Z.div_pos; lia | apply Z.div_lt_upper_bound; lia]. }
  simpl. destruct (Z.eqb_spec (n `div` 16) 0) as [H0 | H0].
  - eexists _, _. split; [reflexivity|]. apply hex_digit_nonzero. lia.
  - apply IH. lia.
Qed.

(** [hex] writes no padding: the literal of a non-negative integer is
    ["0x0"], or its first digit is not zero. *)
Lemma hex_unpadded (n : Z) :
  0 ≤ n →
  Py.hex n = "0x0"
  ∨ ∃ c s, Py.hex n = String "0" (String "x" (String c s)) ∧ c ≠ "0"%char.
Proof.
  intros Hn. destruct (decide (n = 0)) as [-> | Hne]; [by left|]. right.
  unfold Py.hex. rewrite (proj2 (Z.ltb_ge n 0)) by done.
  destruct (hex_digits_leading (Py.hex_fuel n) n "") as (c & s & -> & Hc).
  { split; [lia | by apply hex_fuel_enough]. }
  by exists c, s.
Qed.

Lemma all_hex_digits_no_comma (s : string) :
  all_hex_digits s = true → ","%char ∉ String.list_ascii_of_string s.
Proof.
  induction s as [|c s IH]; simpl; [intros _; apply not_elem_of_nil|].
  intros [Hc Hs]%andb_true_iff. apply not_elem_of_cons. split; [|auto].
  intros <-. apply bool_decide_eq_true_1 in Hc as [v Hv].
vm_compute in Hv. discriminate Hv.
Qed.

Lemma hex_no_comma (n : Z) :
  0 ≤ n → ","%char ∉ String.list_ascii_of_string (Py.hex n).
Proof.
  intros Hn. destruct (hex_nonneg n Hn) as (c & s & -> & Hall & _).
  change (","%char ∉ "0"%char :: "x"%char :: String.list_ascii_of_string (String c s)).
  do 2 (apply not_elem_of_cons; split; [done|]).
  by apply (all_hex_digits_no_comma (String c s)).
Qed.

End Hex.

(** ** Joining and splitting *)

Section JoinSplit.

Import Reader.

Variables (c0 : ascii) (sep' : string).

(** The separator, which is not empty. *)
Local Abbreviation sep := (String c0 sep').

Lemma append_cons (c : ascii) (s1 s2 : string) :
  String c s1 +:+ s2 = String c (s1 +:+ s2).
Proof. reflexivity. Qed.

Lemma append_empty_r (s : string) : s +:+ "" = s.
Proof. induction s as [|c s IH]; [done|]. by rewrite append_cons, IH. Qed.

Lemma prefix_append (s rest : string) : String.prefix s (s +:+ rest) = true.
Proof.
  induction s as [|c s IH]; [by destruct rest|].
  rewrite append_cons. simpl. by destruct (ascii_dec c c).
Qed.

(** The rest of an occurrence of the separator is dropped. *)
Lemma split_from_skip (s rest : string) :
  split_from sep (String.length s) (s +:+ rest) = split_from sep 0 rest.
Proof.
  induction s as [|c s IH]; [done|]. rewrite append_cons. simpl. apply IH.
Qed.

Lemma split_from_sep (rest : string) :
  split_from sep 0 (sep +:+ rest) = "" :: split_from sep 0 rest.
Proof.
  change (String c0 sep' +:+ rest) with (String c0 (sep' +:+ rest)).
  change (split_from sep 0 (String c0 (sep' +:+ rest)))
    with (if String.prefix sep (String c0 (sep' +:+ rest))
          then "" :: split_from sep (String.length sep - 1) (sep' +:+ rest)
          else push c0 (split_from sep 0 (sep' +:+ rest))).
  change (String c0 (sep' +:+ rest)) with (sep +:+ rest).
  rewrite prefix_append.
  replace (String.length sep - 1)%nat with (String.length sep')
    by (simpl; lia).
  by rewrite split_from_skip.
Qed.

Lemma split_from_nonempty (skip : nat) (s : string) :
  split_from sep skip s ≠ [].
Proof.
  revert skip. induction s as [|c s IH]; intros skip; [done|].
  destruct skip as [|skip]; [|apply IH].
  change (split_from sep 0 (String c s))
    with (if String.prefix sep (String c s)
          then "" :: split_from sep (String.length sep - 1) s
          else push c (split_from sep 0 s)).
  destruct (String.prefix sep (String c s)); [done|].
  by destruct (split_from sep 0 s).
Qed.

(** A piece in which the separator cannot start is passed over. *)
Lemma split_from_piece (t rest : string) :
  c0 ∉ String.list_ascii_of_string t →
  split_from sep 0 (t +:+ rest) = prepend t (split_from sep 0 rest).
Proof.
  induction t as [|c t IH]; intros Hfree.
  { change ("" +:+ rest) with rest.
    pose proof (split_from_nonempty 0 rest).
    by destruct (split_from sep 0 rest). }
  simpl in Hfree. apply not_elem_of_cons in Hfree as [Hc Ht].
  change (String c t +:+ rest) with (String c (t +:+ rest)).
  change (split_from sep 0 (String c (t +:+ rest)))
    with (if String.prefix sep (String c (t +:+ rest))
          then "" :: split_from sep (String.length sep - 1) (t +:+ rest)
          else push c (split_from sep 0 (t +:+ rest))).
  assert (String.prefix sep (String c (t +:+ rest)) = false) as ->.
  { simpl. by destruct (ascii_dec c0 c). }
  rewrite IH by done. by destruct (split_from sep 0 rest).
Qed.

(** Splitting what was joined gives the pieces back, when the
    separator cannot start inside a piece. *)
Lemma split_join (l : list string) :
  l ≠ [] →
  Forall (λ t, c0 ∉ String.list_ascii_of_string t) l →
  split sep (Py.join sep l) = l.
Proof.
  unfold split. induction l as [|t l IH]; [done|]. intros _ Hfree.
  apply Forall_cons in Hfree as [Ht Hl]. destruct l as [|t' l].
  - simpl. rewrite <- (append_empty_r t) at 1.
    rewrite split_from_piece by done. simpl. by rewrite append_empty_r.
  - change (Py.join sep (t :: t' :: l))
      with (t +:+ sep +:+ Py.join sep (t' :: l)).
    rewrite split_from_piece, split_from_sep, IH by done.
    simpl. by rewrite append_empty_r.
Qed.

End JoinSplit.

(** ** The knight's geometry *)

Section Geometry.

Implicit Types (y x dy dx : Z).

Lemma knight_offsets_spec dy dx :
  (dy, dx) ∈ knight_offsets ↔
  (Z.abs dy = 1 ∧ Z.abs dx = 2) ∨ (Z.abs dy = 2 ∧ Z.abs dx = 1).
Proof.
  unfold knight_offsets. rewrite !elem_of_cons, elem_of_nil. split.
  - intros H. repeat destruct H as [H | H]; try done;
      injection H as -> ->; lia.
  - intros H.
    assert (Hdy : dy = -2 ∨ dy = -1 ∨ dy = 1 ∨ dy = 2) by lia.
    assert (Hdx : dx = -2 ∨ dx = -1 ∨ dx = 1 ∨ dx = 2) by lia.
    destruct Hdy as [-> | [-> | [-> | ->]]];
      destruct Hdx as [-> | [-> | [-> | ->]]];
      first [ lia | tauto ].
Qed.

(** A knight's move can be taken back. *)
Lemma knight_offsets_opp dy dx :
  (dy, dx) ∈ knight_offsets ↔ (- dy, - dx) ∈ knight_offsets.
Proof. rewrite !knight_offsets_spec. lia. Qed.

(** On the board, a square is hit exactly when it is a knight's move
    away. *)
Lemma hits_on_board y x y' x' :
  0 ≤ x < 8 → 0 ≤ y' < 8 → 0 ≤ x' < 8 →
  hits y x knight_offsets (y' * 8 + x') = true
  ↔ (y' - y, x' - x) ∈ knight_offsets.
Proof.
  intros Hx Hy' Hx'. rewrite hits_spec. split.
  - intros (dy & dx & Hin & Hty & Htx & Heq).
    replace (y' - y) with dy by lia. by replace (x' - x) with dx by lia.
  - intros Hin. exists (y' - y), (x' - x). split; [done|]. lia.
Qed.

Lemma hits_symmetric y x y' x' :
  0 ≤ y < 8 → 0 ≤ x < 8 → 0 ≤ y' < 8 → 0 ≤ x' < 8 →
  hits y x knight_offsets (y' * 8 + x')
  = hits y' x' knight_offsets (y * 8 + x).
Proof.
  intros Hy Hx Hy' Hx'. apply eq_true_iff_eq.
  rewrite !hits_on_board by done.
  rewrite (knight_offsets_opp (y' - y)).
  by replace (- (y' - y)) with (y - y') by lia;
     replace (- (x' - x)) with (x - x') by lia.
Qed.

Lemma hits_self y x :
  0 ≤ y < 8 → 0 ≤ x < 8 → hits y x knight_offsets (y * 8 + x) = false.
Proof.
  intros Hy Hx. apply not_true_is_false.
  rewrite hits_on_board, knight_offsets_spec by done. lia.
Qed.

End Geometry.

(** ** Counting bits *)

Section Popcount.

Lemma popcount_double (v b : Z) :
  0 ≤ v → b = 0 ∨ b = 1 → popcount (b + 2 * v) = b + popcount v.
Proof. intros Hv [-> | ->]; by destruct v. Qed.

(** The bits set in the integer of a bit list are the ones of the
    list. *)
Lemma popcount_list_to_int (li : list Z) :
  is_bits li → popcount (list_to_int li) = Py.sum li.
Proof.
  rewrite list_to_int_bits_value.
  induction 1 as [|b li Hb Hli IH]; [done|].
  rewrite sum_cons. simpl.
  rewrite popcount_double, IH; [done | | done].
  by apply bits_value_bounds.
Qed.

End Popcount.

(** ** The table *)

Section Table.

Lemma collect_patterns_marked (patterns : list (list Z)) :
  collect_patterns = Some patterns →
  Forall (λ pattern, ∃ y x, marked y x knight_offsets pattern) patterns.
Proof.
  destruct collect_patterns_order as (ps & -> & Hps). intros [= <-].
  eapply Forall2_Forall_r; [exact Hps|].
  apply Forall_forall. intros [y x] _ p Hp. simpl in Hp.
  destruct (square_pattern_marked y x) as (p' & Hp' & Hm).
  exists y, x. congruence.
Qed.

(** The patterns are bit lists of length 64, so the masks are below
    [2^64]. *)
Lemma collect_patterns_bits (patterns : list (list Z)) :
  collect_patterns = Some patterns →
  Forall (λ li, length li = 64%nat ∧ is_bits li
                ∧ 0 ≤ list_to_int li < 2 ^ 64) patterns.
Proof.
  intros Hps%collect_patterns_marked.
  eapply Forall_impl; [exact Hps|]. intros p (y & x & Hm). simpl.
  pose proof (marked_is_bits _ _ _ _ Hm) as Hbits.
  destruct Hm as [Hlen _]. split; [done|]. split; [done|].
  pose proof (list_to_int_bounds p Hbits) as Hb.
  by rewrite Hlen in Hb.
Qed.

(** The literal at an index of the table is the one of the mask
    there. *)
Lemma table_lookup (i : nat) :
  (i < 64)%nat →
  ∃ table m,
    generate_patterns = Some table ∧ length table = 64%nat
    ∧ mask_at i = Some m ∧ 0 ≤ m < 2 ^ 64
    ∧ table !! i = Some (Py.hex m).
Proof.
  intros Hi. unfold generate_patterns, mask_at.
  destruct collect_patterns_order as (ps & Hps & _). rewrite Hps. simpl.
  pose proof (collect_patterns_length ps Hps) as Hlen.
  pose proof (collect_patterns_bits ps Hps) as Hbits.
  destruct (lookup_lt_is_Some_2 ps i) as [p Hp]; [lia|].
  rewrite Forall_lookup in Hbits. destruct (Hbits i p Hp) as (_ & _ & Hm).
  exists (map list_to_hex ps), (list_to_int p). rewrite Hp. simpl.
  split; [done|]. split; [by rewrite length_map|]. split; [done|].
  split; [done|]. rewrite list_lookup_fmap, Hp. done.
Qed.

End Table.

(** ** The properties of the generator *)

(** C1. For every source square [(rank, file)] of the board the pattern is
    built, its mask is the one at index [rank*8 + file] of the table, and
    bit [i] of the mask is set if and only if [i] is
    [(rank+dr)*8 + (file+df)] for one of the eight knight offsets
    [(dr, df)] whose target is on the board; no other bit is set. *)
Theorem mask_bits_are_knight_targets (rank file : Z) :
  0 ≤ rank < 8 → 0 ≤ file < 8 →
  ∃ pattern,
    square_pattern rank file = Some pattern
    ∧ mask_at (Z.to_nat (rank * 8 + file)) = Some (list_to_int pattern)
    ∧ ∀ i : Z,
        Z.testbit (list_to_int pattern) i = true
        ↔ ∃ dr df,
            (dr, df) ∈ [(-2, -1); (-2, 1); (2, -1); (2, 1);
                        (-1, -2); (-1, 2); (1, -2); (1, 2)]
            ∧ 0 ≤ rank + dr < 8 ∧ 0 ≤ file + df < 8
            ∧ i = (rank + dr) * 8 + (file + df).
Proof.
  intros Hrank Hfile.
  destruct (mask_at_square rank file Hrank Hfile)
    as (p & m & Hp & -> & Hm & Hbits).
  exists p. split; [exact Hp|]. split; [exact Hm|]. intros i.
  rewrite Hbits. apply hits_spec.
Qed.

Lemma mask_bits_are_knight_targets_witness :
  ∃ pattern,
    square_pattern 1 0 = Some pattern
    ∧ mask_at (Z.to_nat (1 * 8 + 0)) = Some (list_to_int pattern)
    ∧ ∀ i : Z,
        Z.testbit (list_to_int pattern) i = true
        ↔ ∃ dr df,
            (dr, df) ∈ [(-2, -1); (-2, 1); (2, -1); (2, 1);
                        (-1, -2); (-1, 2); (1, -2); (1, 2)]
            ∧ 0 ≤ 1 + dr < 8 ∧ 0 ≤ 0 + df < 8
            ∧ i = (1 + dr) * 8 + (0 + df).
Proof. apply (mask_bits_are_knight_targets 1 0); lia. Defined.

(** C2. [generate_patterns] returns exactly 64 literals, one per square
    in row-major order: the entry at position [rank*8 + file] is the
    literal of the mask of the source square [(rank, file)]. *)
Theorem table_is_row_major :
  ∃ table,
    generate_patterns = Some table
    ∧ length table = 64%nat
    ∧ ∀ rank file : Z, 0 ≤ rank < 8 → 0 ≤ file < 8 →
        ∃ pattern,
          square_pattern rank file = Some pattern
          ∧ table !! Z.to_nat (rank * 8 + file) = Some (list_to_hex pattern)
          ∧ mask_at (Z.to_nat (rank * 8 + file)) = Some (list_to_int pattern).
Proof.
  destruct collect_patterns_order as (ps & Hps & _).
  exists (map list_to_hex ps). split.
  { unfold generate_patterns. by rewrite Hps. }
  split.
  { by rewrite length_map, (collect_patterns_length ps Hps). }
  intros rank file Hr Hf.
  destruct (collect_patterns_lookup rank file ps Hr Hf Hps) as (p & Hp & Hsq).
  exists p. split; [done|]. split.
  - by rewrite list_lookup_fmap, Hp.
  - unfold mask_at. rewrite Hps. simpl. by rewrite Hp.
Qed.

Lemma table_is_row_major_witness :
  ∃ table pattern,
    generate_patterns = Some table
    ∧ square_pattern 3 3 = Some pattern
    ∧ table !! Z.to_nat (3 * 8 + 3) = Some (list_to_hex pattern).
Proof.
  destruct table_is_row_major as (table & Hgen & _ & Hrm).
  destruct (Hrm 3 3) as (pattern & Hsq & Htab & _); [lia | lia |].
  by exists table, pattern.
Defined.

(** C3. For all integers [y] and [x], of any sign and size,
    [is_valid_square] returns true if and only if [0 <= y < 8] and
    [0 <= x < 8], and returns false otherwise: it has a result on every
    input. *)
Theorem is_valid_square_iff (y x : Z) :
  (is_valid_square y x = true ↔ 0 ≤ y < 8 ∧ 0 ≤ x < 8)
  ∧ (is_valid_square y x = false ↔ ¬ (0 ≤ y < 8 ∧ 0 ≤ x < 8)).
Proof.
  rewrite <- not_true_iff_false, is_valid_square_spec. tauto.
Qed.

(** C5. For all [i] and [j] in [0, 64), bit [j] of the mask at index [i]
    equals bit [i] of the mask at index [j]. *)
Theorem masks_symmetric (i j : nat) :
  (i < 64)%nat → (j < 64)%nat →
  ∃ mi mj,
    mask_at i = Some mi ∧ mask_at j = Some mj
    ∧ Z.testbit mi (Z.of_nat j) = Z.testbit mj (Z.of_nat i).
Proof.
  intros Hi Hj.
  destruct (square_of_index i Hi) as (y & x & Hy & Hx & Hin & HiZ).
  destruct (square_of_index j Hj) as (y' & x' & Hy' & Hx' & Hjn & HjZ).
  destruct (mask_at_square y x Hy Hx) as (_ & mi & _ & _ & Hmi & Hbi).
  destruct (mask_at_square y' x' Hy' Hx') as (_ & mj & _ & _ & Hmj & Hbj).
  exists mi, mj. rewrite Hin, Hjn. split; [done|]. split; [done|].
  rewrite Hbi, Hbj, <- Hin, <- Hjn, HiZ, HjZ.
  by apply hits_symmetric.
Qed.

Lemma masks_symmetric_witness :
  ∃ mi mj,
    mask_at 0 = Some mi ∧ mask_at 17 = Some mj
    ∧ Z.testbit mi (Z.of_nat 17) = Z.testbit mj (Z.of_nat 0).
Proof. apply (masks_symmetric 0 17); lia. Defined.

(** C6. For every [i] in [0, 64), bit [i] of the mask at index [i] is
    not set. *)
Theorem mask_excludes_own_square (i : nat) :
  (i < 64)%nat →
  ∃ m, mask_at i = Some m ∧ Z.testbit m (Z.of_nat i) = false.
Proof.
  intros Hi.
  destruct (square_of_index i Hi) as (y & x & Hy & Hx & Hin & HiZ).
  destruct (mask_at_square y x Hy Hx) as (_ & m & _ & _ & Hm & Hb).
  exists m. rewrite Hin at 1. split; [done|].
  rewrite Hb, HiZ. by apply hits_self.
Qed.

Lemma mask_excludes_own_square_witness :
  ∃ m, mask_at 27 = Some m ∧ Z.testbit m (Z.of_nat 27) = false.
Proof. apply (mask_excludes_own_square 27); lia. Defined.

(** C4, as stated: the mask at index 8 (rank 1, file 0) has exactly the
    bits 2, 18 and 25 set and a bit count of 4.  This fails: three bits
    cannot count four. *)
Lemma edge_square_popcount_is_not_4 :
  ¬ ∃ m,
      mask_at 8 = Some m
      ∧ (∀ i : Z, Z.testbit m i = true ↔ i = 2 ∨ i = 18 ∨ i = 25)
      ∧ popcount m = 4.
Proof.
  intros (m & Hm & _ & Hpop). vm_compute in Hm. injection Hm as <-.
  vm_compute in Hpop. discriminate Hpop.
Qed.

(** C4, amended: the mask at index 8 (rank 1, file 0) has exactly the
    bits 2, 18 and 25 set, and its bit count is 3. *)
Theorem edge_square_mask :
  ∃ table m,
    generate_patterns = Some table
    ∧ table !! 8%nat = Some (Py.hex m)
    ∧ mask_at 8 = Some m
    ∧ (∀ i : Z, Z.testbit m i = true ↔ i = 2 ∨ i = 18 ∨ i = 25)
    ∧ popcount m = 3.
Proof.
  destruct (table_lookup 8) as (table & m & Hgen & _ & Hm & _ & Htab); [lia|].
  exists table, m. do 3 (split; [assumption|]).
  destruct (mask_at_square 1 0) as (_ & m' & _ & _ & Hm' & Hbits);
    [lia | lia |].
  change (Z.to_nat (1 * 8 + 0)) with 8%nat in Hm'.
  assert (m' = m) as -> by congruence. split.
  - intros i. rewrite Hbits, hits_spec. split.
    + intros (dr & df & Hin & Hr & Hf & ->). knight_cases Hin; lia.
    + intros Hi. destruct Hi as [-> | [-> | ->]].
      * exists (-1), 2. rewrite knight_offsets_spec. lia.
      * exists 1, 2. rewrite knight_offsets_spec. lia.
      * exists 2, 1. rewrite knight_offsets_spec. lia.
  - vm_compute in Hm. injection Hm as <-. reflexivity.
Qed.

(** C7. For every [i] in [0, 64), the mask at index [i] has at least 2
    and at most 8 bits set. *)
Theorem mask_degree_bounds (i : nat) :
  (i < 64)%nat →
  ∃ m, mask_at i = Some m ∧ 2 ≤ popcount m ≤ 8.
Proof.
  intros Hi.
  assert (Hall : forallb (λ i,
            match mask_at i with
            | Some m => (2 <=? popcount m) && (popcount m <=? 8)
            | None => false
            end) (seq 0 64) = true) by (vm_compute; reflexivity).
  rewrite forallb_forall in Hall.
  assert (Hin : In i (seq 0 64)) by (apply in_seq; lia).
  specialize (Hall i Hin).
  destruct (mask_at i) as [m|]; [|discriminate Hall].
  apply andb_true_iff in Hall as [Hlo Hhi].
  exists m. split; [reflexivity | lia].
Qed.

Lemma mask_degree_bounds_witness :
  ∃ m, mask_at 8 = Some m ∧ 2 ≤ popcount m ≤ 8.
Proof. apply (mask_degree_bounds 8); lia. Defined.

(** C8. The mask at index 0 (rank 0, file 0) is [0x20400]: exactly the
    bits 17 and 10 are set, and the table holds the literal
    ["0x20400"] there. *)
Theorem corner_square_mask :
  ∃ table,
    generate_patterns = Some table
    ∧ table !! 0%nat = Some "0x20400"
    ∧ mask_at 0 = Some 0x20400
    ∧ ∀ i : Z, Z.testbit 0x20400 i = true ↔ i = 17 ∨ i = 10.
Proof.
  destruct (table_lookup 0) as (table & m & Hgen & _ & Hm & _ & Htab); [lia|].
  destruct (mask_at_square 0 0) as (_ & m' & _ & _ & Hm' & Hbits);
    [lia | lia |].
  change (Z.to_nat (0 * 8 + 0)) with 0%nat in Hm'.
  assert (m' = m) as -> by congruence.
  assert (m = 0x20400) as ->.
  { vm_compute in Hm. injection Hm as <-. reflexivity. }
  exists table. do 3 (split; [assumption|]).
  intros i. rewrite Hbits, hits_spec. split.
  - intros (dr & df & Hin & Hr & Hf & ->). knight_cases Hin; lia.
  - intros [-> | ->].
    + exists 2, 1. rewrite knight_offsets_spec. lia.
    + exists 1, 2. rewrite knight_offsets_spec. lia.
Qed.

(** C9. The printed line, split at the separator [", "], yields exactly
    64 tokens; each matches [0x[0-9a-f]+] and carries no padding (it is
    ["0x0"], or its first digit is not zero), and reading token [i] as a
    hexadecimal number gives the mask at index [i] of the table. *)
Theorem printed_line_roundtrip :
  ∃ line,
    printed_line = Some line
    ∧ main = Some (line +:+ String "010" "")
    ∧ length (Reader.split ", " line) = 64%nat
    ∧ ∀ i : nat, (i < 64)%nat →
        ∃ token m,
          Reader.split ", " line !! i = Some token
          ∧ Reader.is_hex_literal token = true
          ∧ (token = "0x0"
             ∨ ∃ c s, token = String "0" (String "x" (String c s))
                      ∧ c ≠ "0"%char)
          ∧ mask_at i = Some m
          ∧ Reader.parse_hex token = Some m.
Proof.
  destruct collect_patterns_order as (ps & Hps & _).
  pose proof (collect_patterns_length ps Hps) as Hlen.
  pose proof (collect_patterns_bits ps Hps) as Hbits.
  assert (Hgen : generate_patterns = Some (map list_to_hex ps)).
  { unfold generate_patterns. rewrite Hps. reflexivity. }
  assert (Hsplit : Reader.split ", " (Py.join ", " (map list_to_hex ps))
                   = map list_to_hex ps).
  { apply (split_join "," " ").
    - intros Hnil%(f_equal length). rewrite length_map, Hlen in Hnil.
      discriminate Hnil.
    - apply Forall_fmap. eapply Forall_impl; [exact Hbits|].
      intros p (_ & _ & Hp). apply hex_no_comma. lia. }
  exists (Py.join ", " (map list_to_hex ps)).
  split; [unfold printed_line; rewrite Hgen; reflexivity|].
  split; [unfold main, printed_line; rewrite Hgen; reflexivity|].
  rewrite Hsplit. split; [rewrite length_map; exact Hlen|].
  intros i Hi.
  destruct (lookup_lt_is_Some_2 ps i) as [p Hp]; [lia|].
  rewrite Forall_lookup in Hbits. destruct (Hbits i p Hp) as (_ & _ & Hm).
  destruct (hex_roundtrip (list_to_int p)) as [Hlit Hparse]; [lia|].
  exists (list_to_hex p), (list_to_int p).
  split; [rewrite list_lookup_fmap, Hp; reflexivity|].
  split; [exact Hlit|].
  split; [apply hex_unpadded; lia|].
  split; [unfold mask_at; rewrite Hps; simpl; rewrite Hp; reflexivity|].
  exact Hparse.
Qed.

Lemma printed_line_roundtrip_witness :
  ∃ line token m,
    printed_line = Some line
    ∧ Reader.split ", " line !! 63%nat = Some token
    ∧ Reader.is_hex_literal token = true
    ∧ (token = "0x0"
       ∨ ∃ c s, token = String "0" (String "x" (String c s))
                ∧ c ≠ "0"%char)
    ∧ mask_at 63 = Some m
    ∧ Reader.parse_hex token = Some m.
Proof.
  destruct printed_line_roundtrip as (line & Hline & _ & _ & Htokens).
  destruct (Htokens 63%nat)
    as (token & m & Htok & Hlit & Hpad & Hm & Hparse); [lia|].
  exists line, token, m. tauto.
Defined.

(** C10. Every mask that [generate_patterns] formats is the value of a
    list of exactly 64 binary digits, the digit at position [i] weighing
    [2^i], and therefore lies in [0, 2^64): it fits an unsigned 64-bit
    integer. *)
Theorem masks_fit_64_bits :
  ∃ patterns,
    collect_patterns = Some patterns
    ∧ generate_patterns = Some (map (λ li, Py.hex (list_to_int li)) patterns)
    ∧ Forall (λ li,
        length li = 64%nat
        ∧ Forall (λ b, b = 0 ∨ b = 1) li
        ∧ list_to_int li
          = foldr Z.add 0 (imap (λ i b, b * 2 ^ Z.of_nat i) li)
        ∧ 0 ≤ list_to_int li < 2 ^ 64) patterns.
Proof.
  destruct collect_patterns_order as (ps & Hps & _). exists ps.
  split; [exact Hps|].
  split; [unfold generate_patterns; rewrite Hps; reflexivity|].
  pose proof (collect_patterns_bits ps Hps) as Hbits.
  eapply Forall_impl; [exact Hbits|]. intros p (Hlen & Hb & Hrange).
  split; [exact Hlen|]. split; [exact Hb|]. split; [|exact Hrange].
  apply list_to_int_weights.
Qed.

(** ** Further properties of [list_to_hex] *)

Section BitListFacts.

Implicit Types (li : list Z).

Lemma bits_value_app (l1 l2 : list Z) :
  bits_value (l1 ++ l2)
  = bits_value l1 + 2 ^ Z.of_nat (length l1) * bits_value l2.
Proof.
  induction l1 as [|b l1 IH]; [simpl; lia|].
  change (bits_value ((b :: l1) ++ l2)) with (b + 2 * bits_value (l1 ++ l2)).
  change (bits_value (b :: l1)) with (b + 2 * bits_value l1).
  change (length (b :: l1)) with (S (length l1)).
  rewrite IH, Nat2Z.inj_succ, Z.pow_succ_r by lia. lia.
Qed.

Lemma bits_value_zeros (n : nat) : bits_value (replicate n 0) = 0.
Proof. induction n as [|n IH]; [done|]. simpl. rewrite IH. lia. Qed.

(** Bit lists of one length with the same value are the same list. *)
Lemma bits_value_inj (l1 l2 : list Z) :
  is_bits l1 → is_bits l2 → length l1 = length l2 →
  bits_value l1 = bits_value l2 → l1 = l2.
Proof.
  intros H1. revert l2.
  induction H1 as [|b1 l1 Hb1 H1 IH]; intros l2 H2 Hlen Hval.
  { by destruct l2. }
  destruct H2 as [|b2 l2 Hb2 H2]; [done|].
  simpl in Hlen, Hval.
  assert (b1 = b2 ∧ bits_value l1 = bits_value l2) as [-> Hrest]
    by (destruct Hb1 as [-> | ->], Hb2 as [-> | ->]; lia).
  f_equal. apply IH; [done | lia | done].
Qed.

End BitListFacts.

(** X1. For a list of binary digits, [list_to_hex] writes a literal of
    the form [0x[0-9a-f]+] whose value [m] is below [2^len(li)] and has
    bit [i] set exactly when [li[i]] is [1]. *)
Theorem list_to_hex_encodes_bits (li : list Z) :
  is_bits li →
  Reader.is_hex_literal (list_to_hex li) = true
  ∧ ∃ m,
      Reader.parse_hex (list_to_hex li) = Some m
      ∧ 0 ≤ m < 2 ^ Z.of_nat (length li)
      ∧ ∀ i : nat, Z.testbit m (Z.of_nat i) = true ↔ li !! i = Some 1.
Proof.
  intros Hli. pose proof (list_to_int_bounds li Hli) as Hb.
  destruct (hex_roundtrip (list_to_int li)) as [Hlit Hparse]; [lia|].
  split; [exact Hlit|]. exists (list_to_int li).
  split; [exact Hparse|]. split; [exact Hb|]. intros i.
  rewrite list_to_int_testbit, bool_decide_eq_true, Nat2Z.id by exact Hli.
  split; [tauto | split; [lia | assumption]].
Qed.

Lemma list_to_hex_encodes_bits_witness :
  Reader.is_hex_literal (list_to_hex [1; 0; 1; 1]) = true
  ∧ ∃ m,
      Reader.parse_hex (list_to_hex [1; 0; 1; 1]) = Some m
      ∧ 0 ≤ m < 2 ^ Z.of_nat (length [1; 0; 1; 1])
      ∧ ∀ i : nat,
          Z.testbit m (Z.of_nat i) = true ↔ [1; 0; 1; 1] !! i = Some 1.
Proof.
  apply (list_to_hex_encodes_bits [1; 0; 1; 1]).
  repeat constructor; lia.
Defined.

(** X2. The integer that [list_to_hex] formats is positional: for all
    lists of integers, the value of [l1 + l2] is the value of [l1] plus
    [2^len(l1)] times the value of [l2]. *)
Theorem list_to_int_concat (l1 l2 : list Z) :
  list_to_int (l1 ++ l2)
  = list_to_int l1 + 2 ^ Z.of_nat (length l1) * list_to_int l2.
Proof. rewrite !list_to_int_bits_value. apply bits_value_app. Qed.

(** X3. Zeros at the end of the list do not change the literal: no
    padding is written for them, and a list of zeros only (also the empty
    list) gives ["0x0"]. *)
Theorem list_to_hex_trailing_zeros (li : list Z) (n : nat) :
  list_to_hex (li ++ replicate n 0) = list_to_hex li
  ∧ list_to_hex (replicate n 0) = "0x0".
Proof.
  unfold list_to_hex. rewrite !list_to_int_bits_value, bits_value_app.
  rewrite bits_value_zeros, Z.mul_0_r, Z.add_0_r. split; reflexivity.
Qed.

(** X4. On lists of binary digits of one length [list_to_hex] is
    injective: different patterns never get the same literal. *)
Theorem list_to_hex_injective (l1 l2 : list Z) :
  is_bits l1 → is_bits l2 → length l1 = length l2 →
  list_to_hex l1 = list_to_hex l2 → l1 = l2.
Proof.
  intros H1 H2 Hlen Hhex.
  pose proof (list_to_int_bounds l1 H1) as Hb1.
  pose proof (list_to_int_bounds l2 H2) as Hb2.
  destruct (hex_roundtrip (list_to_int l1)) as [_ Hp1]; [lia|].
  destruct (hex_roundtrip (list_to_int l2)) as [_ Hp2]; [lia|].
  unfold list_to_hex in Hhex. rewrite Hhex, Hp2 in Hp1.
  injection Hp1 as Hval. rewrite !list_to_int_bits_value in Hval.
  by apply bits_value_inj.
Qed.

Lemma list_to_hex_injective_witness : [1; 0; 1] = [1; 0; 1].
Proof.
  apply (list_to_hex_injective [1; 0; 1] [1; 0; 1]);
    first [ reflexivity | repeat constructor; lia ].
Defined.

(** X5. The number of set bits of the integer of a list of binary digits
    is the number of ones in the list, which is its sum. *)
Theorem list_to_int_popcount (li : list Z) :
  is_bits li → popcount (list_to_int li) = Py.sum li.
Proof. apply popcount_list_to_int. Qed.

Lemma list_to_int_popcount_witness :
  popcount (list_to_int [1; 0; 1; 1]) = Py.sum [1; 0; 1; 1].
Proof.
  apply (list_to_int_popcount [1; 0; 1; 1]). repeat constructor; lia.
Defined.

(** ** Further properties of the loops of [generate_patterns] *)

Section MarkFacts.

Implicit Types (y x : Z) (d : Z * Z) (pattern : list Z).

(** On a pattern of 64 entries the guarded store is a plain update. *)
Lemma mark_on_board y x d pattern :
  length pattern = 64%nat →
  mark y x d pattern
  = Some (if is_valid_square (y + d.1) (x + d.2)
          then <[Z.to_nat ((y + d.1) * 8 + (x + d.2)) := 1]> pattern
          else pattern).
Proof.
  intros Hlen. destruct d as [dy dx]. unfold mark. simpl.
  destruct (is_valid_square (y + dy) (x + dx)) eqn:Hv; [|done].
  apply setitem_in_range. apply valid_square_index in Hv. lia.
Qed.

Lemma mark_length y x d pattern pattern' :
  length pattern = 64%nat → mark y x d pattern = Some pattern' →
  length pattern' = 64%nat.
Proof.
  intros Hlen. rewrite mark_on_board by done. intros [= <-].
  destruct (is_valid_square _ _); [by rewrite length_insert | done].
Qed.

(** No target on the board from a source that far away. *)
Lemma hits_far_away y x (i : Z) :
  y < -2 ∨ 9 < y ∨ x < -2 ∨ 9 < x → hits y x knight_offsets i = false.
Proof.
  intros Hfar. apply not_true_is_false. rewrite hits_spec.
  intros (dy & dx & Hin & Hy & Hx & _).
  apply knight_offsets_spec in Hin. lia.
Qed.

End MarkFacts.

(** X6. On valid squares the index [y*8 + x] stored to lies in
    [0, 64), gives the square back by division, and is different for
    different squares. *)
Theorem square_index_injective (y x y' x' : Z) :
  is_valid_square y x = true → is_valid_square y' x' = true →
  0 ≤ y * 8 + x < 64
  ∧ (y * 8 + x) `div` 8 = y ∧ (y * 8 + x) `mod` 8 = x
  ∧ (y * 8 + x = y' * 8 + x' → y = y' ∧ x = x').
Proof.
  rewrite !is_valid_square_spec. intros [Hy Hx] [Hy' Hx'].
  split; [lia|]. split; [|split; [|lia]].
  - symmetry. apply (Z.div_unique (y * 8 + x) 8 y x); lia.
  - symmetry. apply (Z.mod_unique (y * 8 + x) 8 y x); lia.
Qed.

Lemma square_index_injective_witness :
  0 ≤ 3 * 8 + 5 < 64
  ∧ (3 * 8 + 5) `div` 8 = 3 ∧ (3 * 8 + 5) `mod` 8 = 5
  ∧ (3 * 8 + 5 = 3 * 8 + 5 → 3 = 3 ∧ 5 = 5).
Proof. apply (square_index_injective 3 5 3 5); reflexivity. Defined.



(** X8. On a pattern of 64 entries the loop bodies commute and are
    idempotent: the pattern built does not depend on the order in which
    the offsets are tried, nor on an offset being tried twice. *)
Theorem mark_commutes (y x : Z) (d1 d2 : Z * Z) (pattern : list Z) :
  length pattern = 64%nat →
  (mark y x d1 pattern ≫= mark y x d2)
  = (mark y x d2 pattern ≫= mark y x d1)
  ∧ (mark y x d1 pattern ≫= mark y x d1) = mark y x d1 pattern.
Proof.
  intros Hlen.
  assert (Hstep : ∀ d d', mark y x d pattern ≫= mark y x d'
            = Some (if is_valid_square (y + d'.1) (x + d'.2)
                    then <[Z.to_nat ((y + d'.1) * 8 + (x + d'.2)) := 1]>
                           (if is_valid_square (y + d.1) (x + d.2)
                            then <[Z.to_nat ((y + d.1) * 8 + (x + d.2)) := 1]>
                                   pattern
                            else pattern)
                    else if is_valid_square (y + d.1) (x + d.2)
                         then <[Z.to_nat ((y + d.1) * 8 + (x + d.2)) := 1]>
                                pattern
                         else pattern)).
  { intros d d'. rewrite (mark_on_board y x d pattern Hlen). simpl.
    rewrite mark_on_board.
    - by destruct (is_valid_square (y + d'.1) (x + d'.2)).
    - destruct (is_valid_square (y + d.1) (x + d.2));
        [by rewrite length_insert | done]. }
  rewrite !Hstep, (mark_on_board y x d1 pattern Hlen). split.
  - destruct (is_valid_square (y + d1.1) (x + d1.2)),
             (is_valid_square (y + d2.1) (x + d2.2)); try reflexivity.
    f_equal.
    destruct (decide (Z.to_nat ((y + d1.1) * 8 + (x + d1.2))
                      = Z.to_nat ((y + d2.1) * 8 + (x + d2.2)))) as [-> | Hne].
    + reflexivity.
    + symmetry. by apply list_insert_insert_ne.
  - destruct (is_valid_square (y + d1.1) (x + d1.2)); [|reflexivity].
    f_equal. apply list_insert_insert_eq.
Qed.

Lemma mark_commutes_witness :
  (mark 1 0 (2, 1) (Py.repeat_list 0 64) ≫= mark 1 0 (-1, 2))
  = (mark 1 0 (-1, 2) (Py.repeat_list 0 64) ≫= mark 1 0 (2, 1))
  ∧ (mark 1 0 (2, 1) (Py.repeat_list 0 64) ≫= mark 1 0 (2, 1))
    = mark 1 0 (2, 1) (Py.repeat_list 0 64).
Proof.
  apply (mark_commutes 1 0 (2, 1) (-1, 2) (Py.repeat_list 0 64)). reflexivity.
Defined.

(** X9. For every pair of integers [(y, x)], also one off the board, the
    pattern is built without raising: 64 entries, each [0] or [1], and a
    mask in [0, 2^64). *)
Theorem square_pattern_total (y x : Z) :
  ∃ pattern,
    square_pattern y x = Some pattern
    ∧ length pattern = 64%nat
    ∧ is_bits pattern
    ∧ 0 ≤ list_to_int pattern < 2 ^ 64.
Proof.
  destruct (square_pattern_marked y x) as (p & Hp & Hm).
  pose proof (marked_is_bits _ _ _ _ Hm) as Hbits.
  pose proof (list_to_int_bounds p Hbits) as Hb.
  destruct Hm as [Hlen _]. rewrite Hlen in Hb.
  exists p. split; [exact Hp|]. split; [exact Hlen|]. split; [exact Hbits|].
  exact Hb.
Qed.

(** X10. From a source more than two ranks or files away from the board
    no offset lands on the board: the pattern stays all zeros and its
    literal is ["0x0"]. *)
Theorem square_pattern_far_away (y x : Z) :
  y < -2 ∨ 9 < y ∨ x < -2 ∨ 9 < x →
  square_pattern y x = Some (Py.repeat_list 0 64)
  ∧ list_to_hex (Py.repeat_list 0 64) = "0x0".
Proof.
  intros Hfar. split; [|reflexivity].
  destruct (square_pattern_marked y x) as (p & -> & [Hlen Hbits]).
  f_equal. apply list_eq. intros j.
  destruct (decide (j < 64)%nat) as [Hj | Hj].
  - rewrite (Hbits j Hj), hits_far_away by exact Hfar.
    unfold Py.repeat_list. by rewrite lookup_replicate_2.
  - rewrite !lookup_ge_None_2; [done | | lia].
    unfold Py.repeat_list. rewrite length_replicate. lia.
Qed.

Lemma square_pattern_far_away_witness :
  square_pattern 10 3 = Some (Py.repeat_list 0 64)
  ∧ list_to_hex (Py.repeat_list 0 64) = "0x0".
Proof. apply (square_pattern_far_away 10 3). lia. Defined.

(** ** Further properties of the table *)

(** X11. A set bit [j] of the mask at index [i] is one of the eight
    knight distances away from [i]: [j - i] is [6], [10], [15] or [17],
    or the negative of one of them. *)
Theorem mask_bit_distance (i j : nat) (m : Z) :
  (i < 64)%nat → mask_at i = Some m → Z.testbit m (Z.of_nat j) = true →
  Z.of_nat j - Z.of_nat i ∈ [-17; -15; -10; -6; 6; 10; 15; 17].
Proof.
  intros Hi Hm Hbit.
  destruct (square_of_index i Hi) as (y & x & Hy & Hx & Hin & HiZ).
  destruct (mask_at_square y x Hy Hx) as (_ & m' & _ & _ & Hm' & Hbits).
  rewrite <- Hin in Hm'. assert (m' = m) as -> by congruence.
  rewrite Hbits, hits_spec in Hbit.
  destruct Hbit as (dy & dx & Hd & _ & _ & Hj). clear Hm Hm' Hbits.
  rewrite Hj, HiZ. rewrite !elem_of_cons.
  knight_cases Hd; lia.
Qed.

Lemma mask_bit_distance_witness :
  Z.of_nat 17 - Z.of_nat 0 ∈ [-17; -15; -10; -6; 6; 10; 15; 17].
Proof.
  apply (mask_bit_distance 0 17 0x20400); [lia | reflexivity | reflexivity].
Defined.

(** X12. A knight changes the colour of its square: when bit [j] of the
    mask at index [i] is set, the coordinate sums of the squares [i] and
    [j] differ in parity. *)
Theorem mask_bit_changes_colour (i j : nat) (m : Z) :
  (i < 64)%nat → mask_at i = Some m → Z.testbit m (Z.of_nat j) = true →
  (Z.of_nat i `div` 8 + Z.of_nat i `mod` 8
   + Z.of_nat j `div` 8 + Z.of_nat j `mod` 8) `mod` 2 = 1.
Proof.
  intros Hi Hm Hbit.
  destruct (square_of_index i Hi) as (y & x & Hy & Hx & Hin & HiZ).
  destruct (mask_at_square y x Hy Hx) as (_ & m' & _ & _ & Hm' & Hbits).
  rewrite <- Hin in Hm'. assert (m' = m) as -> by congruence.
  rewrite Hbits, hits_spec in Hbit.
  destruct Hbit as (dy & dx & Hd & Hty & Htx & Hj). clear Hm Hm' Hbits.
  rewrite Hj, HiZ.
  rewrite <- (Z.div_unique (y * 8 + x) 8 y x) by lia.
  rewrite <- (Z.mod_unique (y * 8 + x) 8 y x) by lia.
  rewrite <- (Z.div_unique ((y + dy) * 8 + (x + dx)) 8 (y + dy) (x + dx))
    by lia.
  rewrite <- (Z.mod_unique ((y + dy) * 8 + (x + dx)) 8 (y + dy) (x + dx))
    by lia.
  knight_cases Hd;
    match goal with
    | |- ?e `mod` 2 = 1 =>
        pose proof (Z.div_mod e 2); pose proof (Z.mod_pos_bound e 2); lia
    end.
Qed.

Lemma mask_bit_changes_colour_witness :
  (Z.of_nat 0 `div` 8 + Z.of_nat 0 `mod` 8
   + Z.of_nat 10 `div` 8 + Z.of_nat 10 `mod` 8) `mod` 2 = 1.
Proof.
  apply (mask_bit_changes_colour 0 10 0x20400);
    [lia | reflexivity | reflexivity].
Defined.

(** X13. The number of set bits of the mask of a square of the board is
    the number of knight offsets whose target is on the board: no two
    offsets store to the same index. *)
Theorem mask_popcount_counts_targets (y x : Z) :
  0 ≤ y < 8 → 0 ≤ x < 8 →
  ∃ m,
    mask_at (Z.to_nat (y * 8 + x)) = Some m
    ∧ popcount m
      = Z.of_nat (length (List.filter
          (λ d : Z * Z, is_valid_square (y + d.1) (x + d.2))
          (Py.product [-2; 2] [-1; 1] ++ Py.product [-1; 1] [-2; 2]))).
Proof.
  intros Hy Hx.
  assert (Hall : forallb (λ y, forallb (λ x,
            match mask_at (Z.to_nat (y * 8 + x)) with
            | Some m =>
                popcount m =? Z.of_nat (length (List.filter
                  (λ d : Z * Z, is_valid_square (y + d.1) (x + d.2))
                  (Py.product [-2; 2] [-1; 1]
                   ++ Py.product [-1; 1] [-2; 2])))
            | None => false
            end) (Py.range 8)) (Py.range 8) = true)
    by (vm_compute; reflexivity).
  rewrite forallb_forall in Hall.
  assert (Hiny : In y (Py.range 8))
    by (apply list_elem_of_In, elem_of_seqZ; lia).
  assert (Hinx : In x (Py.range 8))
    by (apply list_elem_of_In, elem_of_seqZ; lia).
  specialize (Hall y Hiny). rewrite forallb_forall in Hall.
  specialize (Hall x Hinx).
  destruct (mask_at (Z.to_nat (y * 8 + x))) as [m|]; [|discriminate Hall].
  exists m. split; [reflexivity|]. by apply Z.eqb_eq.
Qed.

Lemma mask_popcount_counts_targets_witness :
  ∃ m,
    mask_at (Z.to_nat (1 * 8 + 0)) = Some m
    ∧ popcount m
      = Z.of_nat (length (List.filter
          (λ d : Z * Z, is_valid_square (1 + d.1) (0 + d.2))
          (Py.product [-2; 2] [-1; 1] ++ Py.product [-1; 1] [-2; 2]))).
Proof. apply (mask_popcount_counts_targets 1 0); lia. Defined.

(** X14. [generate_patterns] returns without raising, and the literals
    it returns are 64 and pairwise different: a literal identifies its
    square. *)
Theorem table_literals_distinct :
  ∃ table,
    generate_patterns = Some table ∧ length table = 64%nat ∧ NoDup table.
Proof.
  destruct (generate_patterns) as [table|] eqn:Hgen.
  - exists table. split; [reflexivity|].
    vm_compute in Hgen. injection Hgen as <-.
    split; [reflexivity|].
    apply (bool_decide_unpack _). vm_compute. exact I.
  - vm_compute in Hgen. discriminate Hgen.
Qed.
